(** * material-ui-popup-state: the popup state controller and its binding functions

    A shallow embedding of [src/index.js].  The file has three parts:

    - the JavaScript values the controller handles, with truthiness and the
      read of the [target] member, which is where a call can throw;
    - the class [PopupState]: its instance state, the module-level flag
      [eventOrAnchorElWarned], the console, and the four handlers written in
      a small state-and-exception monad;
    - the binding functions, whose results are object literals, kept as
      association lists in the order of the literal.

    Flow annotations are erased before the code runs, and the guard of
    [handleOpen] itself tests its argument for falsiness, so the argument
    of a handler ranges over every value, not only over
    [Event | HTMLElement]. *)

From Stdlib Require Import String List Bool ZArith Lia.
Import ListNotations.
Open Scope string_scope.

(** ** Values *)

(** A value is a primitive or a reference to an object.  An object is given by
    its identity [ref] and by the members a read can see (own or inherited);
    none of the code below writes to an object.  Numbers are given by an
    integer or are [NaN], which is enough to tell falsy numbers apart. *)
#[warnings="-register-all"]
Inductive value : Type :=
| VUndefined
| VNull
| VBool (b : bool)
| VNum (n : Z)
| VNaN
| VStr (s : string)
| VObj (ref : nat) (members : list (string * value)).

(** [Boolean(v)], also the test of [if], [!], [&&] and [?:]. *)
Definition ToBoolean (v : value) : bool :=
  match v with
  | VUndefined | VNull | VNaN => false
  | VBool b => b
  | VNum n => negb (Z.eqb n 0)
  | VStr s => negb (String.eqb s "")
  | VObj _ _ => true
  end.

Definition nullish (v : value) : bool :=
  match v with
  | VUndefined | VNull => true
  | _ => false
  end.

Fixpoint lookup {A : Type} (k : string) (l : list (string * A)) : option A :=
  match l with
  | [] => None
  | (k', a) :: l' => if String.eqb k k' then Some a else lookup k l'
  end.

Definition has_key {A : Type} (k : string) (l : list (string * A)) : bool :=
  match lookup k l with
  | Some _ => true
  | None => false
  end.

Inductive error : Type :=
| TypeError (msg : string).

Inductive completion (A : Type) : Type :=
| Normal (a : A)
| Throw (e : error).
Arguments Normal {A} a.
Arguments Throw {A} e.

Definition cannot_read_target : error :=
  TypeError "Cannot read property 'target' of undefined or null".

(** [v.target].  Reading a member of [undefined] or [null] throws; a
    primitive is boxed and its prototype has no [target]; an object answers
    with the member, or with [undefined] when it has none. *)
Definition member_target (v : value) : completion value :=
  match v with
  | VUndefined | VNull => Throw cannot_read_target
  | VObj _ members =>
      Normal (match lookup "target" members with
              | Some t => t
              | None => VUndefined
              end)
  | VBool _ | VNum _ | VNaN | VStr _ => Normal VUndefined
  end.

(** ** The component instance and the module state *)

Module State.
Record t : Type := mk { anchorEl : value }.
End State.

(** What a handler can read and write: the module-level
    [let eventOrAnchorElWarned], the lines written by [console.error]
    (latest first), and [this.state]. *)
Record World : Type := mkWorld {
  eventOrAnchorElWarned : bool;
  console_error_log : list string;
  this_state : State.t
}.

(** [let eventOrAnchorElWarned = false] and [state = { anchorEl: null }]. *)
Definition initial : World :=
  {| eventOrAnchorElWarned := false;
     console_error_log := [];
     this_state := State.mk VNull |}.

(** ** Computations: state plus exceptions *)

Definition JS (A : Type) : Type := World -> completion A * World.

Definition ret {A : Type} (a : A) : JS A := fun w => (Normal a, w).

Definition bind {A B : Type} (m : JS A) (k : A -> JS B) : JS B :=
  fun w =>
    match m w with
    | (Normal a, w') => k a w'
    | (Throw e, w') => (Throw e, w')
    end.

Declare Scope js_scope.
Delimit Scope js_scope with js.
Notation "'let*' x ':=' m 'in' k" := (bind m (fun x => k))
  (at level 10, x name, m at level 100, k at level 200) : js_scope.
Notation "m '>>' k" := (bind m (fun _ => k))
  (at level 90, right associativity) : js_scope.
Open Scope js_scope.

Definition lift {A : Type} (c : completion A) : JS A := fun w => (c, w).

Definition read_eventOrAnchorElWarned : JS bool :=
  fun w => (Normal (eventOrAnchorElWarned w), w).

Definition write_eventOrAnchorElWarned (b : bool) : JS unit :=
  fun w => (Normal tt, mkWorld b (console_error_log w) (this_state w)).

Definition console_error (msg : string) : JS unit :=
  fun w => (Normal tt,
            mkWorld (eventOrAnchorElWarned w) (msg :: console_error_log w) (this_state w)).

Definition read_state : JS State.t :=
  fun w => (Normal (this_state w), w).

(** [this.setState(s)]: the state has the one field [anchorEl], so merging
    the update replaces the state.  The update is applied at once, each
    handler running to completion before the next one starts. *)
Definition setState (s : State.t) : JS unit :=
  fun w => (Normal tt, mkWorld (eventOrAnchorElWarned w) (console_error_log w) s).

(** [a && b] on tests, [b] evaluated only when [a] holds. *)
Definition and_also (a b : JS bool) : JS bool :=
  let* x := a in if x then b else ret false.

(** [!v.target] and [v.target] as a test. *)
Definition not_target (v : value) : JS bool :=
  let* t := lift (member_target v) in ret (negb (ToBoolean t)).

Definition test_target (v : value) : JS bool :=
  let* t := lift (member_target v) in ret (ToBoolean t).

(** ** The handlers of [PopupState] *)

Definition handleClose : JS unit := setState (State.mk VNull).

Definition handleOpen (eventOrAnchorEl : value) : JS unit :=
  let* invalid :=
    and_also
      (and_also
         (let* warned := read_eventOrAnchorElWarned in ret (negb warned))
         (ret (negb (ToBoolean eventOrAnchorEl))))
      (not_target eventOrAnchorEl) in
  (if invalid
   then write_eventOrAnchorElWarned true >>
        console_error "eventOrAnchorEl should be defined"
   else ret tt) >>
  let* has_target :=
    and_also (ret (ToBoolean eventOrAnchorEl)) (test_target eventOrAnchorEl) in
  let* anchor :=
    if has_target then lift (member_target eventOrAnchorEl) else ret eventOrAnchorEl in
  setState (State.mk anchor).

Definition handleToggle (eventOrAnchorEl : value) : JS unit :=
  let* s := read_state in
  if ToBoolean (State.anchorEl s) then handleClose else handleOpen eventOrAnchorEl.

Definition handleSetOpen (open eventOrAnchorEl : value) : JS unit :=
  if ToBoolean open then handleOpen eventOrAnchorEl else handleClose.

(** ** Injected props and [render] *)

Module InjectedProps.
Record t : Type := mk {
  open : value -> JS unit;
  close : JS unit;
  toggle : value -> JS unit;
  setOpen : value -> value -> JS unit;
  isOpen : bool;
  anchorEl : value;
  popupId : value;
  variant : string
}.
End InjectedProps.

Module Props.
Record t (Node : Type) : Type := mk {
  popupId : value;
  children : InjectedProps.t -> Node;
  variant : string
}.
Arguments mk {Node} _ _ _.
Arguments popupId {Node} _.
Arguments children {Node} _.
Arguments variant {Node} _.
End Props.

Definition render {Node : Type} (props : Props.t Node) (w : World) : Node :=
  let anchorEl := State.anchorEl (this_state w) in
  let isOpen := ToBoolean anchorEl in
  Props.children props
    (InjectedProps.mk handleOpen handleClose handleToggle handleSetOpen
       isOpen anchorEl (Props.popupId props) (Props.variant props)).

(** ** The operations a consumer can perform *)

(** One call of an injected handler, as the callback of [render] makes it. *)
Inductive op : Type :=
| Open (eventOrAnchorEl : value)
| Close
| Toggle (eventOrAnchorEl : value)
| SetOpen (open eventOrAnchorEl : value).

Definition invoke (p : InjectedProps.t) (o : op) : JS unit :=
  match o with
  | Open e => InjectedProps.open p e
  | Close => InjectedProps.close p
  | Toggle e => InjectedProps.toggle p e
  | SetOpen b e => InjectedProps.setOpen p b e
  end.

(** The props of the latest render, as the callback receives them. *)
Definition injected (popupId : value) (variant : string) (w : World) : InjectedProps.t :=
  render (Props.mk popupId (fun p => p) variant) w.

(** A sequence of calls, each one made on the props of the latest render.
    A call that throws ends there, with the world as it was at the throw; the
    exception goes to the caller of the handler and the next call is a new
    event. *)
Fixpoint run (popupId : value) (variant : string) (ops : list op) (w : World) : World :=
  match ops with
  | [] => w
  | o :: ops' =>
      run popupId variant ops' (snd (invoke (injected popupId variant w) o w))
  end.

(** The worlds a sequence of calls goes through, the starting one first. *)
Fixpoint trace (popupId : value) (variant : string) (ops : list op) (w : World)
  : list World :=
  w :: match ops with
       | [] => []
       | o :: ops' =>
           trace popupId variant ops' (snd (invoke (injected popupId variant w) o w))
       end.

(** ** Closed forms used in the statements *)

(** [v.target] where the read does not throw, [undefined] elsewhere. *)
Definition target_of (v : value) : value :=
  match member_target v with
  | Normal t => t
  | Throw _ => VUndefined
  end.

(** The anchor [handleOpen] stores when it reaches [setState]. *)
Definition resolved_anchor (v : value) : value :=
  if ToBoolean (target_of v) then target_of v else v.

(** The resolution as the specification words it: the [target] member when
    the source exposes one, the source itself otherwise. *)
Definition exposes_target (v : value) : bool :=
  match v with
  | VObj _ members => has_key "target" members
  | _ => false
  end.

Definition spec_resolved_anchor (v : value) : value :=
  if exposes_target v then target_of v else v.

Definition warning : string := "eventOrAnchorEl should be defined".

(** ** Binding functions *)

(** A member of a props object: a value or one of the injected handlers. *)
Inductive attr : Type :=
| AVal (v : value)
| AFun0 (f : JS unit)
| AFun1 (f : value -> JS unit).

(** An object literal, members in the order they are written. *)
Definition object : Type := list (string * attr).

Definition keys (o : object) : list string := map fst o.

Definition bindTrigger (p : InjectedProps.t) : object :=
  [ (if String.eqb (InjectedProps.variant p) "popover"
     then "aria-owns" else "aria-describedby",
     AVal (if InjectedProps.isOpen p then InjectedProps.popupId p else VNull));
    ("aria-haspopup", AVal (VBool true));
    ("onClick", AFun1 (InjectedProps.open p)) ].

Definition bindToggle (p : InjectedProps.t) : object :=
  [ (if String.eqb (InjectedProps.variant p) "popover"
     then "aria-owns" else "aria-describedby",
     AVal (if InjectedProps.isOpen p then InjectedProps.popupId p else VNull));
    ("aria-haspopup", AVal (VBool true));
    ("onClick", AFun1 (InjectedProps.toggle p)) ].

Definition bindHover (p : InjectedProps.t) : object :=
  [ (if String.eqb (InjectedProps.variant p) "popover"
     then "aria-owns" else "aria-describedby",
     AVal (if InjectedProps.isOpen p then InjectedProps.popupId p else VNull));
    ("aria-haspopup", AVal (VBool true));
    ("onMouseEnter", AFun1 (InjectedProps.open p));
    ("onMouseLeave", AFun0 (InjectedProps.close p)) ].

Definition bindPopover (p : InjectedProps.t) : object :=
  [ ("id", AVal (InjectedProps.popupId p));
    ("anchorEl", AVal (InjectedProps.anchorEl p));
    ("open", AVal (VBool (InjectedProps.isOpen p)));
    ("onClose", AFun0 (InjectedProps.close p)) ].

Definition bindMenu : InjectedProps.t -> object := bindPopover.

Definition bindPopper (p : InjectedProps.t) : object :=
  [ ("id", AVal (InjectedProps.popupId p));
    ("anchorEl", AVal (InjectedProps.anchorEl p));
    ("open", AVal (VBool (InjectedProps.isOpen p))) ].

(** How many members of [o] are named [k]. *)
Definition count_key (k : string) (o : object) : nat :=
  length (filter (String.eqb k) (keys o)).

(** The ARIA relation rule of the trigger bindings, as the specification
    states it, for the props [p] and a result [o]: one relation member, chosen
    by the variant, whose value follows [isOpen]; and [aria-haspopup]. *)
Definition aria_rule (p : InjectedProps.t) (o : object) : Prop :=
  count_key "aria-owns" o + count_key "aria-describedby" o = 1 /\
  (InjectedProps.variant p = "popover" ->
   has_key "aria-owns" o = true /\ has_key "aria-describedby" o = false) /\
  (InjectedProps.variant p = "popper" ->
   has_key "aria-describedby" o = true /\ has_key "aria-owns" o = false) /\
  (forall k, k = "aria-owns" \/ k = "aria-describedby" ->
             has_key k o = true ->
             (InjectedProps.isOpen p = true ->
              lookup k o = Some (AVal (InjectedProps.popupId p))) /\
             (InjectedProps.isOpen p = false ->
              lookup k o = Some (AVal VNull))) /\
  lookup "aria-haspopup" o = Some (AVal (VBool true)).

(** The result of [bindPopover] as the specification writes it. *)
Definition spec_popover_output (p : InjectedProps.t) : object :=
  [ ("id", AVal (InjectedProps.popupId p));
    ("anchorEl", AVal (InjectedProps.anchorEl p));
    ("open", AVal (VBool (InjectedProps.isOpen p)));
    ("onClose", AFun0 (InjectedProps.close p)) ].

(** ** Sample values *)

(** A button: an element with no [target] member. *)
Definition button_element : value := VObj 1 [("tagName", VStr "BUTTON")].

(** A click on the button. *)
Definition click_event : value :=
  VObj 2 [("type", VStr "click"); ("target", button_element)].

(** A link: [HTMLAnchorElement] has a [target] member of its own, the empty
    string unless the markup sets it. *)
Definition link_element : value :=
  VObj 3 [("tagName", VStr "A"); ("target", VStr "")].

(** The world after a falsy primitive has set the flag and the popup has
    been closed again. *)
Definition warned_closed : World := mkWorld true [warning] (State.mk VNull).

(** The diagnostic is on the console exactly when the flag is set. *)
Definition warn_once (w : World) : Prop :=
  console_error_log w = if eventOrAnchorElWarned w then [warning] else [].

(** ** Calls, seen from the handler they end in *)

(** One call made on the props of the render of [w]. *)
Definition step (popupId : value) (variant : string) (o : op) (w : World)
  : completion unit * World :=
  invoke (injected popupId variant w) o w.

(** The results of the calls of a sequence, in order. *)
Fixpoint outcomes (popupId : value) (variant : string) (ops : list op) (w : World)
  : list (completion unit) :=
  match ops with
  | [] => []
  | o :: ops' =>
      fst (step popupId variant o w)
      :: outcomes popupId variant ops' (snd (step popupId variant o w))
  end.

Definition is_throw {A : Type} (c : completion A) : bool :=
  match c with
  | Throw _ => true
  | Normal _ => false
  end.

(** The argument with which a call reaches [handleOpen] in the world [w];
    [None] when it is [handleClose] that runs. *)
Definition opens (o : op) (w : World) : option value :=
  match o with
  | Open e => Some e
  | Close => None
  | Toggle e => if ToBoolean (State.anchorEl (this_state w)) then None else Some e
  | SetOpen b e => if ToBoolean b then Some e else None
  end.

(** A call whose anchor argument, where it takes one that it may use, is
    truthy. *)
Definition supplied (o : op) : bool :=
  match o with
  | Open e => ToBoolean e
  | Close => true
  | Toggle e => ToBoolean e
  | SetOpen b e => ToBoolean e || negb (ToBoolean b)
  end.

(** The anchor arguments of a sequence of calls. *)
Fixpoint arguments (ops : list op) : list value :=
  match ops with
  | [] => []
  | Open e :: ops' => e :: arguments ops'
  | Close :: ops' => arguments ops'
  | Toggle e :: ops' => e :: arguments ops'
  | SetOpen _ e :: ops' => e :: arguments ops'
  end.

(** ** Two mounted components *)

(** Two instances of [PopupState] in one page: each has its own
    [this.state], both run the handlers of the one module and so share
    [eventOrAnchorElWarned] and the console. *)
Inductive instance : Type :=
| First
| Second.

Record Page : Type := mkPage {
  page_warned : bool;
  page_console : list string;
  first_state : State.t;
  second_state : State.t
}.

Definition fresh_page : Page :=
  mkPage false [] (State.mk VNull) (State.mk VNull).

Definition state_of (i : instance) (pg : Page) : State.t :=
  match i with
  | First => first_state pg
  | Second => second_state pg
  end.

(** The world a handler of instance [i] runs in. *)
Definition view (i : instance) (pg : Page) : World :=
  mkWorld (page_warned pg) (page_console pg) (state_of i pg).

(** The page once a handler of instance [i] has left the world [w]. *)
Definition store (i : instance) (w : World) (pg : Page) : Page :=
  match i with
  | First =>
      mkPage (eventOrAnchorElWarned w) (console_error_log w)
        (this_state w) (second_state pg)
  | Second =>
      mkPage (eventOrAnchorElWarned w) (console_error_log w)
        (first_state pg) (this_state w)
  end.

Definition on_instance (i : instance) (o : op) (pg : Page) : completion unit * Page :=
  let r := step VUndefined "popover" o (view i pg) in
  (fst r, store i (snd r) pg).

Fixpoint run_page (calls : list (instance * op)) (pg : Page) : Page :=
  match calls with
  | [] => pg
  | (i, o) :: calls' => run_page calls' (snd (on_instance i o pg))
  end.

(** The props that [propTypes] accepts without a warning of its own:
    [popupId] is a string or is left out, [variant] is one of [popover] and
    [popper] ([children] is a function by its type). *)
Definition valid_props (popupId : value) (variant : string) : bool :=
  match popupId with
  | VStr _ | VUndefined | VNull => true
  | _ => false
  end
  && (String.eqb variant "popover" || String.eqb variant "popper").

Definition same_instance (i j : instance) : bool :=
  match i, j with
  | First, First | Second, Second => true
  | _, _ => false
  end.

(** The calls of an interleaving that are made on instance [j]. *)
Definition calls_of (j : instance) (calls : list (instance * op)) : list op :=
  map snd (filter (fun c => same_instance (fst c) j) calls).

(** * Properties *)

(** ** What one call of [handleOpen] does *)

Section HandleOpen.
Variable e : value.
Variable w : World.

(** With [null] or [undefined] and the flag unset, the guard reads
    [e.target] and throws; nothing has been written by then. *)
Lemma handleOpen_nullish_unwarned :
  nullish e = true -> eventOrAnchorElWarned w = false ->
  handleOpen e w = (Throw cannot_read_target, w).
Proof.
  intros Hn Hw. destruct w as [f l s]. simpl in Hw. subst f.
  destruct e; try discriminate Hn; reflexivity.
Qed.

(** Once the flag is set the guard stops at its first test, whatever [e]
    is, and the update goes through. *)
Lemma handleOpen_warned :
  eventOrAnchorElWarned w = true ->
  handleOpen e w =
  (Normal tt, mkWorld true (console_error_log w) (State.mk (resolved_anchor e))).
Proof.
  intros Hw. destruct w as [f l s]. simpl in Hw. subst f.
  unfold handleOpen, resolved_anchor, target_of.
  destruct e as [ | | b | n | | str | r ms]; try reflexivity.
  - destruct b; reflexivity.
  - cbn. destruct (Z.eqb n 0); reflexivity.
  - cbn. destruct (String.eqb str ""); reflexivity.
  - cbn. destruct (lookup "target" ms) as [t|]; cbn; [destruct (ToBoolean t)|]; reflexivity.
Qed.

(** A truthy argument passes the guard without a diagnostic. *)
Lemma handleOpen_truthy :
  ToBoolean e = true ->
  handleOpen e w =
  (Normal tt,
   mkWorld (eventOrAnchorElWarned w) (console_error_log w) (State.mk (resolved_anchor e))).
Proof.
  intros Ht. destruct w as [f l s].
  unfold handleOpen, resolved_anchor, target_of.
  destruct e as [ | | b | n | | str | r ms]; try discriminate Ht.
  - cbn in Ht. subst b. destruct f; reflexivity.
  - cbn in *. rewrite Ht. destruct f; reflexivity.
  - cbn in *. rewrite Ht. destruct f; reflexivity.
  - cbn. destruct f; cbn; (destruct (lookup "target" ms) as [t|]; cbn;
      [destruct (ToBoolean t)|]; reflexivity).
Qed.

(** A falsy argument that is neither [null] nor [undefined] is the one case
    in which the diagnostic is written. *)
Lemma handleOpen_falsy_primitive :
  ToBoolean e = false -> nullish e = false -> eventOrAnchorElWarned w = false ->
  handleOpen e w =
  (Normal tt, mkWorld true (warning :: console_error_log w) (State.mk e)).
Proof.
  intros Ht Hn Hw. destruct w as [f l s]. simpl in Hw. subst f.
  destruct e as [ | | b | n | | str | r ms]; try discriminate Hn; try discriminate Ht.
  - cbn in Ht. subst b. reflexivity.
  - unfold handleOpen. cbn in *. rewrite Ht. reflexivity.
  - reflexivity.
  - unfold handleOpen. cbn in *. rewrite Ht. reflexivity.
Qed.

(** A falsy argument resolves to itself. *)
Lemma resolved_anchor_falsy : ToBoolean e = false -> resolved_anchor e = e.
Proof.
  unfold resolved_anchor, target_of.
  destruct e; intros Ht; try reflexivity; discriminate Ht.
Qed.

(** Whatever is not [null] or [undefined] gets through to [setState]. *)
Lemma handleOpen_defined :
  nullish e = false ->
  fst (handleOpen e w) = Normal tt /\
  this_state (snd (handleOpen e w)) = State.mk (resolved_anchor e).
Proof.
  intros Hn.
  destruct (ToBoolean e) eqn:Ht.
  - rewrite (handleOpen_truthy Ht). split; reflexivity.
  - destruct (eventOrAnchorElWarned w) eqn:Hw.
    + rewrite (handleOpen_warned Hw). split; reflexivity.
    + rewrite (handleOpen_falsy_primitive Ht Hn Hw).
      rewrite (resolved_anchor_falsy Ht). split; reflexivity.
Qed.

(** A truthy argument resolves to a truthy anchor. *)
Lemma resolved_anchor_truthy :
  ToBoolean e = true -> ToBoolean (resolved_anchor e) = true.
Proof.
  intros Ht. unfold resolved_anchor.
  destruct (ToBoolean (target_of e)) eqn:Hx; assumption.
Qed.

End HandleOpen.

(** ** Sanity checks on concrete calls *)

Example open_with_event :
  handleOpen click_event initial = (Normal tt, mkWorld false [] (State.mk button_element)).
Proof. reflexivity. Qed.

Example open_with_element :
  handleOpen button_element initial = (Normal tt, mkWorld false [] (State.mk button_element)).
Proof. reflexivity. Qed.

Example open_with_empty_string :
  handleOpen (VStr "") initial = (Normal tt, mkWorld true [warning] (State.mk (VStr ""))).
Proof. reflexivity. Qed.

Example warned_closed_reachable :
  run VUndefined "popover" [Open (VStr ""); Close] initial = warned_closed.
Proof. reflexivity. Qed.

Example bindPopper_closed :
  bindPopper (InjectedProps.mk handleOpen handleClose handleToggle handleSetOpen
                false VNull (VStr "p") "popper")
  = [("id", AVal (VStr "p")); ("anchorEl", AVal VNull); ("open", AVal (VBool false))].
Proof. reflexivity. Qed.

(** ** The other handlers, one call *)

Lemma handleClose_eq (w : World) :
  handleClose w =
  (Normal tt, mkWorld (eventOrAnchorElWarned w) (console_error_log w) (State.mk VNull)).
Proof. reflexivity. Qed.

Lemma handleToggle_eq (e : value) (w : World) :
  handleToggle e w =
  if ToBoolean (State.anchorEl (this_state w)) then handleClose w else handleOpen e w.
Proof.
  unfold handleToggle, bind, read_state.
  destruct (ToBoolean (State.anchorEl (this_state w))); reflexivity.
Qed.

Lemma handleSetOpen_eq (b e : value) (w : World) :
  handleSetOpen b e w = if ToBoolean b then handleOpen e w else handleClose w.
Proof. unfold handleSetOpen. destruct (ToBoolean b); reflexivity. Qed.

(** ** The diagnostic is written at most once *)

Lemma handleOpen_warn_once (e : value) (w : World) :
  warn_once w -> warn_once (snd (handleOpen e w)).
Proof.
  unfold warn_once. intros Hw.
  destruct (eventOrAnchorElWarned w) eqn:Hf.
  - rewrite (handleOpen_warned e w Hf). simpl. exact Hw.
  - destruct (ToBoolean e) eqn:Ht.
    + rewrite (handleOpen_truthy e w Ht). simpl. rewrite Hf. exact Hw.
    + destruct (nullish e) eqn:Hn.
      * rewrite (handleOpen_nullish_unwarned e w Hn Hf). simpl. rewrite Hf. exact Hw.
      * rewrite (handleOpen_falsy_primitive e w Ht Hn Hf). simpl. rewrite Hw. reflexivity.
Qed.

Lemma invoke_warn_once (popupId : value) (variant : string) (o : op) (w : World) :
  warn_once w -> warn_once (snd (invoke (injected popupId variant w) o w)).
Proof.
  intros Hw. destruct o as [e | | e | b e]; simpl.
  - apply handleOpen_warn_once, Hw.
  - exact Hw.
  - rewrite handleToggle_eq.
    destruct (ToBoolean (State.anchorEl (this_state w))).
    + exact Hw.
    + apply handleOpen_warn_once, Hw.
  - rewrite handleSetOpen_eq. destruct (ToBoolean b).
    + apply handleOpen_warn_once, Hw.
    + exact Hw.
Qed.

Lemma run_warn_once (popupId : value) (variant : string) (ops : list op) :
  forall w, warn_once w -> warn_once (run popupId variant ops w).
Proof.
  induction ops as [| o ops IH]; intros w Hw; simpl.
  - exact Hw.
  - apply IH, invoke_warn_once, Hw.
Qed.

(** From a fresh module, however many calls are made on however bad an
    argument, the console holds the diagnostic at most once. *)
Lemma diagnostic_at_most_once (popupId : value) (variant : string) (ops : list op) :
  length (console_error_log (run popupId variant ops initial)) <= 1.
Proof.
  assert (H : warn_once (run popupId variant ops initial))
    by (apply run_warn_once; reflexivity).
  unfold warn_once in H. rewrite H.
  destruct (eventOrAnchorElWarned _); simpl; lia.
Qed.

(** Two opens in a row: the second one decides, provided it is given
    something other than [null] or [undefined]. *)
Lemma open_open_last_write (a b : value) (w : World) :
  nullish b = false ->
  fst (handleOpen b (snd (handleOpen a w))) = Normal tt /\
  this_state (snd (handleOpen b (snd (handleOpen a w)))) = State.mk (resolved_anchor b).
Proof. intros Hb. apply handleOpen_defined, Hb. Qed.

(** * The specification, property by property *)

(** ** C1 *)

(** C1.  Along every sequence of [open], [close], [toggle] and [setOpen]
    calls made from the initial state, at every render the injected [isOpen]
    is [Boolean(state.anchorEl)]: true exactly when the anchor is truthy.
    Nothing else enters: changing the flag, the console, [popupId] or
    [variant] while keeping [state.anchorEl] leaves [isOpen] as it is. *)
Theorem isOpen_iff_anchorEl_present (popupId : value) (variant : string) (ops : list op) :
  Forall
    (fun w =>
       InjectedProps.isOpen (injected popupId variant w)
       = ToBoolean (State.anchorEl (this_state w)) /\
       InjectedProps.anchorEl (injected popupId variant w)
       = State.anchorEl (this_state w) /\
       forall flag log popupId' variant',
         InjectedProps.isOpen
           (injected popupId' variant' (mkWorld flag log (this_state w)))
         = InjectedProps.isOpen (injected popupId variant w))
    (trace popupId variant ops initial).
Proof.
  generalize initial.
  induction ops as [| o ops IH]; intros w; simpl; constructor.
  - repeat split.
  - constructor.
  - repeat split.
  - apply IH.
Qed.

(** ** C2 *)

(** C2.  The first invalid call of a process, made with [undefined] (or with
    [null]), does not write the diagnostic and does not reach [setState]: it
    throws while the guard reads [target], leaving the flag unset, the
    console empty and the state as it was. *)
Theorem handleOpen_undefined_first_call_throws :
  handleOpen VUndefined initial = (Throw cannot_read_target, initial) /\
  handleOpen VNull initial = (Throw cannot_read_target, initial).
Proof. split; reflexivity. Qed.

(** ** C3 *)

(** C3, as stated, fails on a link element: it exposes a [target] member,
    the empty string, and [open] stores the element, not that member. *)
Lemma open_link_element_keeps_element :
  exposes_target link_element = true /\
  State.anchorEl (this_state (snd (handleOpen link_element initial))) = link_element /\
  State.anchorEl (this_state (snd (handleOpen link_element initial)))
  <> spec_resolved_anchor link_element.
Proof. repeat split. discriminate. Qed.

(** C3, amended.  For every anchor source other than [null] and
    [undefined], [open] completes and stores the [target] member when that
    member is truthy, and the source itself otherwise; in particular a
    source with no [target] member is stored as it is. *)
Theorem handleOpen_resolves_truthy_target (a : value) (w : World) :
  nullish a = false ->
  fst (handleOpen a w) = Normal tt /\
  State.anchorEl (this_state (snd (handleOpen a w)))
  = (if ToBoolean (target_of a) then target_of a else a) /\
  (exposes_target a = false ->
   State.anchorEl (this_state (snd (handleOpen a w))) = a).
Proof.
  intros Hn. destruct (handleOpen_defined a w Hn) as [Hc Hs].
  rewrite Hs. simpl. repeat split; try assumption.
  intros Hx. unfold resolved_anchor, target_of.
  destruct a as [ | | b | n | | str | r ms]; try reflexivity.
  unfold exposes_target, has_key in Hx. simpl.
  destruct (lookup "target" ms); [discriminate Hx | reflexivity].
Qed.

Lemma handleOpen_resolves_truthy_target_witness :
  nullish click_event = false /\
  State.anchorEl (this_state (snd (handleOpen click_event initial))) = button_element.
Proof.
  split; [reflexivity |].
  exact (proj1 (proj2 (handleOpen_resolves_truthy_target click_event initial eq_refl))).
Defined.

(** When [handleOpen] writes the diagnostic: the flag is unset and the
    argument is falsy without being [null] or [undefined]. *)
Lemma diagnostic_written_iff (a : value) (w : World) :
  console_error_log (snd (handleOpen a w))
  = if negb (eventOrAnchorElWarned w) && negb (ToBoolean a) && negb (nullish a)
    then warning :: console_error_log w
    else console_error_log w.
Proof.
  destruct (eventOrAnchorElWarned w) eqn:Hf; simpl.
  - rewrite (handleOpen_warned a w Hf). reflexivity.
  - destruct (ToBoolean a) eqn:Ht; simpl.
    + rewrite (handleOpen_truthy a w Ht). reflexivity.
    + destruct (nullish a) eqn:Hn; simpl.
      * rewrite (handleOpen_nullish_unwarned a w Hn Hf). reflexivity.
      * rewrite (handleOpen_falsy_primitive a w Ht Hn Hf). reflexivity.
Qed.

(** ** C4 *)

(** C4, as stated, fails on [false]: it is falsy, the flag is unset, and the
    call neither throws nor skips the diagnostic; it writes it, sets the
    flag and stores [false]. *)
Lemma open_false_reaches_diagnostic :
  ToBoolean (VBool false) = false /\
  eventOrAnchorElWarned initial = false /\
  handleOpen (VBool false) initial
  = (Normal tt, mkWorld true [warning] (State.mk (VBool false))).
Proof. repeat split. Qed.

(** C4, amended.  With [null] or [undefined], while the flag is unset,
    [open] throws a type error in the guard, before any write: flag, console
    and state are as before.  Whatever the flag, a call with [null] or
    [undefined] never writes the diagnostic and never changes the flag.  The
    diagnostic is written exactly when the flag is unset and the argument is
    falsy without being [null] or [undefined]. *)
Theorem handleOpen_null_or_undefined_throws (a : value) (w : World) :
  (nullish a = true -> eventOrAnchorElWarned w = false ->
   handleOpen a w = (Throw cannot_read_target, w)) /\
  (nullish a = true ->
   console_error_log (snd (handleOpen a w)) = console_error_log w /\
   eventOrAnchorElWarned (snd (handleOpen a w)) = eventOrAnchorElWarned w) /\
  console_error_log (snd (handleOpen a w))
  = (if negb (eventOrAnchorElWarned w) && negb (ToBoolean a) && negb (nullish a)
     then warning :: console_error_log w
     else console_error_log w).
Proof.
  split; [apply handleOpen_nullish_unwarned |].
  split; [| apply diagnostic_written_iff].
  intros Hn. destruct (eventOrAnchorElWarned w) eqn:Hf.
  - rewrite (handleOpen_warned a w Hf). split; reflexivity.
  - rewrite (handleOpen_nullish_unwarned a w Hn Hf). simpl. rewrite Hf.
    split; reflexivity.
Qed.

Lemma handleOpen_null_or_undefined_throws_witness :
  nullish VUndefined = true /\
  eventOrAnchorElWarned initial = false /\
  handleOpen VUndefined initial = (Throw cannot_read_target, initial).
Proof.
  split; [reflexivity | split; [reflexivity |]].
  exact (proj1 (handleOpen_null_or_undefined_throws VUndefined initial) eq_refl eq_refl).
Defined.

(** ** C5 *)

(** C5, as stated, fails on [toggle(null)] made while closed, once the flag
    is set: the call is [open(null)], it completes, and the popup is still
    closed. *)
Lemma toggle_null_stays_closed :
  ToBoolean (State.anchorEl (this_state warned_closed)) = false /\
  handleToggle VNull warned_closed = handleOpen VNull warned_closed /\
  fst (handleToggle VNull warned_closed) = Normal tt /\
  InjectedProps.isOpen
    (injected VUndefined "popover" (snd (handleToggle VNull warned_closed))) = false.
Proof. repeat split. Qed.

(** C5, amended.  While the anchor is present [toggle(a)] is [close()],
    whatever [a] is; while it is absent [toggle(a)] is [open(a)], and for a
    truthy [a] that call completes in the open state, the anchor being the
    one resolved from [a]. *)
Theorem handleToggle_close_or_open (a : value) (w : World) :
  (ToBoolean (State.anchorEl (this_state w)) = true ->
   handleToggle a w = handleClose w /\
   forall b, handleToggle b w = handleToggle a w) /\
  (ToBoolean (State.anchorEl (this_state w)) = false ->
   handleToggle a w = handleOpen a w /\
   (ToBoolean a = true ->
    fst (handleToggle a w) = Normal tt /\
    State.anchorEl (this_state (snd (handleToggle a w))) = resolved_anchor a /\
    InjectedProps.isOpen
      (injected VUndefined "popover" (snd (handleToggle a w))) = true)).
Proof.
  split; intros Hp.
  - split; [| intros b]; rewrite !handleToggle_eq, Hp; reflexivity.
  - assert (He : handleToggle a w = handleOpen a w)
      by (rewrite handleToggle_eq, Hp; reflexivity).
    split; [exact He |]. intros Ha. rewrite He, (handleOpen_truthy a w Ha).
    simpl. repeat split. apply resolved_anchor_truthy, Ha.
Qed.

Lemma handleToggle_close_or_open_witness :
  handleToggle click_event (snd (handleOpen button_element initial))
  = handleClose (snd (handleOpen button_element initial)) /\
  State.anchorEl (this_state (snd (handleToggle click_event initial))) = button_element.
Proof.
  split.
  - exact (proj1 (proj1 (handleToggle_close_or_open click_event
                           (snd (handleOpen button_element initial))) eq_refl)).
  - exact (proj1 (proj2 (proj2 (proj2 (handleToggle_close_or_open click_event initial)
                                  eq_refl) eq_refl))).
Defined.

(** ** C6 *)

(** C6.  [setOpen(flag, a)] is [open(a)] when [flag] is truthy, and
    [close()] when it is falsy; then [a] plays no part and the resulting
    state is the closed one. *)
Theorem handleSetOpen_open_or_close (flag a : value) (w : World) :
  (ToBoolean flag = true -> handleSetOpen flag a w = handleOpen a w) /\
  (ToBoolean flag = false ->
   handleSetOpen flag a w = handleClose w /\
   (forall b, handleSetOpen flag b w = handleSetOpen flag a w) /\
   fst (handleSetOpen flag a w) = Normal tt /\
   this_state (snd (handleSetOpen flag a w)) = State.mk VNull /\
   InjectedProps.isOpen
     (injected VUndefined "popover" (snd (handleSetOpen flag a w))) = false).
Proof.
  split; intros Hf.
  - rewrite handleSetOpen_eq, Hf. reflexivity.
  - split; [rewrite handleSetOpen_eq, Hf; reflexivity |].
    split; [intros b; rewrite !handleSetOpen_eq, Hf; reflexivity |].
    rewrite handleSetOpen_eq, Hf. repeat split.
Qed.

Lemma handleSetOpen_open_or_close_witness :
  handleSetOpen (VBool true) click_event initial = handleOpen click_event initial /\
  this_state (snd (handleSetOpen (VBool false) click_event
                     (snd (handleOpen click_event initial)))) = State.mk VNull.
Proof.
  split.
  - exact (proj1 (handleSetOpen_open_or_close (VBool true) click_event initial) eq_refl).
  - exact (proj1 (proj2 (proj2 (proj2
             (proj2 (handleSetOpen_open_or_close (VBool false) click_event
                       (snd (handleOpen click_event initial))) eq_refl))))).
Defined.

(** ** C7 *)

(** C7.  After [open(button)], with the flag still unset, [open(undefined)]
    raises a type error in the guard and the anchor is still the button: the
    last call has not written. *)
Theorem open_undefined_after_open_throws :
  handleOpen VUndefined (snd (handleOpen button_element initial))
  = (Throw cannot_read_target, mkWorld false [] (State.mk button_element)).
Proof. reflexivity. Qed.

(** ** C8 *)

(** The two variants: which of the two tests on [variant] holds. *)
Lemma variant_cases (v : string) :
  (String.eqb v "popover" = true /\ v = "popover" /\ v <> "popper") \/
  (String.eqb v "popover" = false /\ v <> "popover").
Proof.
  destruct (String.eqb v "popover") eqn:Hv.
  - left. apply String.eqb_eq in Hv. subst v. repeat split. discriminate.
  - right. split; [reflexivity |]. intros ->. discriminate Hv.
Qed.

(** One proof for the three literals: decide the variant, then read the
    members off the literal. *)
Ltac aria_rule_by_cases p :=
  unfold aria_rule, count_key, keys, has_key;
  destruct (variant_cases (InjectedProps.variant p)) as [(Hv & Ho & Hd) | (Hv & Ho)];
  unfold bindTrigger, bindToggle, bindHover; rewrite Hv; cbn;
  repeat split; try reflexivity; try congruence;
  match goal with
  | H : _ = "aria-owns" \/ _ = "aria-describedby" |- _ =>
      destruct H; subst; cbn in *; try discriminate; intros ->; reflexivity
  end.

Lemma bindTrigger_aria_rule (p : InjectedProps.t) : aria_rule p (bindTrigger p).
Proof. aria_rule_by_cases p. Qed.

Lemma bindToggle_aria_rule (p : InjectedProps.t) : aria_rule p (bindToggle p).
Proof. aria_rule_by_cases p. Qed.

Lemma bindHover_aria_rule (p : InjectedProps.t) : aria_rule p (bindHover p).
Proof. aria_rule_by_cases p. Qed.

(** C8.  For every injected-props record, the results of [bindTrigger],
    [bindToggle] and [bindHover] carry exactly one member among [aria-owns]
    and [aria-describedby]: [aria-owns] for the variant [popover],
    [aria-describedby] for [popper]; its value is [popupId] when [isOpen] is
    true and [null], the member still there, when it is false; and
    [aria-haspopup] is [true]. *)
Theorem trigger_bindings_aria_rule (p : InjectedProps.t) :
  aria_rule p (bindTrigger p) /\
  aria_rule p (bindToggle p) /\
  aria_rule p (bindHover p).
Proof.
  split; [apply bindTrigger_aria_rule |].
  split; [apply bindToggle_aria_rule | apply bindHover_aria_rule].
Qed.

Lemma trigger_bindings_aria_rule_witness :
  lookup "aria-owns"
    (bindTrigger (injected (VStr "menu") "popover"
                    (snd (handleOpen click_event initial))))
  = Some (AVal (VStr "menu")) /\
  lookup "aria-describedby"
    (bindHover (injected (VStr "tip") "popper" initial))
  = Some (AVal VNull).
Proof.
  split.
  - pose proof (trigger_bindings_aria_rule
                  (injected (VStr "menu") "popover"
                     (snd (handleOpen click_event initial)))) as [[_ [_ [_ [H _]]]] _].
    exact (proj1 (H "aria-owns" (or_introl eq_refl) eq_refl) eq_refl).
  - pose proof (trigger_bindings_aria_rule
                  (injected (VStr "tip") "popper" initial)) as [_ [_ [_ [_ [_ [H _]]]]]].
    exact (proj2 (H "aria-describedby" (or_intror eq_refl) eq_refl) eq_refl).
Defined.

(** ** C9 *)

(** C9.  [bindMenu] is [bindPopover]: on every injected-props record both
    give the same object, which is
    [{ id: popupId, anchorEl: anchorEl, open: isOpen, onClose: close }]. *)
Theorem bindMenu_is_bindPopover (p : InjectedProps.t) :
  bindMenu p = bindPopover p /\
  bindPopover p = spec_popover_output p /\
  keys (bindMenu p) = ["id"; "anchorEl"; "open"; "onClose"] /\
  lookup "id" (bindMenu p) = Some (AVal (InjectedProps.popupId p)) /\
  lookup "anchorEl" (bindMenu p) = Some (AVal (InjectedProps.anchorEl p)) /\
  lookup "open" (bindMenu p) = Some (AVal (VBool (InjectedProps.isOpen p))) /\
  lookup "onClose" (bindMenu p) = Some (AFun0 (InjectedProps.close p)).
Proof. repeat split. Qed.

(** ** C10 *)

(** C10, as stated, fails in its last clause after [open('')]: the popup is
    closed, the anchor being the empty string, and [close()] completes and
    rewrites the anchor to [null], so the state is not the one before the
    call. *)
Lemma close_rewrites_falsy_anchor :
  InjectedProps.isOpen
    (injected VUndefined "popover" (snd (handleOpen (VStr "") initial))) = false /\
  fst (handleClose (snd (handleOpen (VStr "") initial))) = Normal tt /\
  this_state (snd (handleClose (snd (handleOpen (VStr "") initial))))
  <> this_state (snd (handleOpen (VStr "") initial)).
Proof. repeat split. discriminate. Qed.

(** C10, amended.  From every world, a second [close()] changes nothing the
    first one has not done: both complete, the world after two calls is the
    world after one, and the anchor is [null].  A [close()] made when the
    anchor is already [null] leaves the world as it is; [close()] never
    touches the flag or the console, and made on any closed state it leaves
    the popup closed. *)
Theorem handleClose_idempotent (w : World) :
  fst (handleClose w) = Normal tt /\
  handleClose (snd (handleClose w)) = handleClose w /\
  State.anchorEl (this_state (snd (handleClose w))) = VNull /\
  (State.anchorEl (this_state w) = VNull -> handleClose w = (Normal tt, w)) /\
  eventOrAnchorElWarned (snd (handleClose w)) = eventOrAnchorElWarned w /\
  console_error_log (snd (handleClose w)) = console_error_log w /\
  (ToBoolean (State.anchorEl (this_state w)) = false ->
   forall popupId variant,
     InjectedProps.isOpen (injected popupId variant (snd (handleClose w)))
     = InjectedProps.isOpen (injected popupId variant w)).
Proof.
  repeat split.
  - destruct w as [f l [a]]. simpl. intros ->. reflexivity.
  - intros Hc popupId variant. simpl. symmetry. exact Hc.
Qed.

Lemma handleClose_idempotent_witness :
  handleClose initial = (Normal tt, initial) /\
  InjectedProps.isOpen
    (injected VUndefined "popover" (snd (handleClose warned_closed))) = false.
Proof.
  split.
  - exact (proj1 (proj2 (proj2 (proj2 (handleClose_idempotent initial)))) eq_refl).
  - rewrite (proj2 (proj2 (proj2 (proj2 (proj2 (proj2
               (handleClose_idempotent warned_closed))))))
               eq_refl VUndefined "popover").
    reflexivity.
Defined.

(** * Further properties of the controller *)

(** ** One call, in closed form *)

(** [handleOpen] in one equation: it throws when the flag is unset and the
    argument is [null] or [undefined]; otherwise it completes, sets the flag
    and writes the diagnostic when the flag was unset and the argument
    falsy, and stores the resolved anchor. *)
Lemma handleOpen_eq (e : value) (w : World) :
  handleOpen e w =
  if negb (eventOrAnchorElWarned w) && nullish e
  then (Throw cannot_read_target, w)
  else (Normal tt,
        mkWorld (eventOrAnchorElWarned w || negb (ToBoolean e))
          (if negb (eventOrAnchorElWarned w) && negb (ToBoolean e)
           then warning :: console_error_log w
           else console_error_log w)
          (State.mk (resolved_anchor e))).
Proof.
  destruct (eventOrAnchorElWarned w) eqn:Hf; simpl.
  - apply handleOpen_warned, Hf.
  - destruct (nullish e) eqn:Hn.
    + apply handleOpen_nullish_unwarned; assumption.
    + destruct (ToBoolean e) eqn:Ht; simpl.
      * rewrite (handleOpen_truthy e w Ht), Hf. reflexivity.
      * rewrite (handleOpen_falsy_primitive e w Ht Hn Hf),
          (resolved_anchor_falsy e Ht). reflexivity.
Qed.

(** Every call ends in [handleOpen] or in [handleClose]. *)
Lemma step_eq (popupId : value) (variant : string) (o : op) (w : World) :
  step popupId variant o w =
  match opens o w with
  | Some e => handleOpen e w
  | None => handleClose w
  end.
Proof.
  destruct o as [e | | e | b e]; unfold step; simpl.
  - reflexivity.
  - reflexivity.
  - rewrite handleToggle_eq.
    destruct (ToBoolean (State.anchorEl (this_state w))); reflexivity.
  - rewrite handleSetOpen_eq. destruct (ToBoolean b); reflexivity.
Qed.

Lemma run_cons (popupId : value) (variant : string) (o : op) (ops : list op) (w : World) :
  run popupId variant (o :: ops) w
  = run popupId variant ops (snd (step popupId variant o w)).
Proof. reflexivity. Qed.

(** ** The diagnostic and the exceptions *)

(** X1.  For a component mounted with props that [propTypes] accepts, from
    a freshly loaded module, whatever sequence of calls is made and whatever
    their arguments, [console.error] has been called at most once: the
    console holds the one diagnostic when the flag is set and is empty when
    it is not. *)
Theorem console_follows_flag (popupId : value) (variant : string) (ops : list op) :
  valid_props popupId variant = true ->
  console_error_log (run popupId variant ops initial)
  = (if eventOrAnchorElWarned (run popupId variant ops initial)
     then ["eventOrAnchorEl should be defined"] else []) /\
  length (console_error_log (run popupId variant ops initial)) <= 1.
Proof.
  intros _.
  assert (H : warn_once (run popupId variant ops initial))
    by (apply run_warn_once; reflexivity).
  unfold warn_once in H. split; [exact H |].
  rewrite H. destruct (eventOrAnchorElWarned _); simpl; lia.
Qed.

Lemma console_follows_flag_witness :
  valid_props (VStr "tip") "popper" = true /\
  length (console_error_log
            (run (VStr "tip") "popper"
               [Open (VStr ""); Open (VNum 0); Toggle VNull; SetOpen (VBool true) VNaN]
               initial)) <= 1.
Proof.
  split; [reflexivity |].
  exact (proj2 (console_follows_flag (VStr "tip") "popper"
                  [Open (VStr ""); Open (VNum 0); Toggle VNull; SetOpen (VBool true) VNaN]
                  eq_refl)).
Defined.

(** X2.  A call throws exactly when the flag is unset and the call ends in
    [handleOpen] with [null] or [undefined]: [open] and truthy [setOpen] with
    such an argument, [toggle] with such an argument while closed.  [close],
    falsy [setOpen] and [toggle] while open never throw. *)
Theorem step_throws_iff (popupId : value) (variant : string) (o : op) (w : World) :
  is_throw (fst (step popupId variant o w))
  = negb (eventOrAnchorElWarned w)
    && match opens o w with
       | Some e => nullish e
       | None => false
       end.
Proof.
  rewrite step_eq. destruct (opens o w) as [e |].
  - rewrite handleOpen_eq.
    destruct (negb (eventOrAnchorElWarned w) && nullish e); reflexivity.
  - simpl. rewrite andb_false_r. reflexivity.
Qed.

(** X3.  A call that throws has written nothing: the flag, the console and
    the state are as before the call, and the exception is the type error
    of the read of [target]. *)
Theorem step_throw_leaves_world
  (popupId : value) (variant : string) (o : op) (w : World) (err : error) :
  fst (step popupId variant o w) = Throw err ->
  snd (step popupId variant o w) = w /\ err = cannot_read_target.
Proof.
  rewrite step_eq. destruct (opens o w) as [e |].
  - rewrite handleOpen_eq.
    destruct (negb (eventOrAnchorElWarned w) && nullish e); simpl; intros H.
    + injection H as <-. split; reflexivity.
    + discriminate H.
  - simpl. intros H. discriminate H.
Qed.

Lemma step_throw_leaves_world_witness :
  snd (step VUndefined "popover" (SetOpen (VBool true) VUndefined)
         (snd (handleOpen button_element initial)))
  = snd (handleOpen button_element initial).
Proof.
  exact (proj1 (step_throw_leaves_world VUndefined "popover"
                  (SetOpen (VBool true) VUndefined)
                  (snd (handleOpen button_element initial))
                  cannot_read_target eq_refl)).
Defined.

Lemma step_keeps_flag (popupId : value) (variant : string) (o : op) (w : World) :
  eventOrAnchorElWarned w = true ->
  step popupId variant o w
  = (Normal tt,
     mkWorld true (console_error_log w)
       (State.mk match opens o w with
                 | Some e => resolved_anchor e
                 | None => VNull
                 end)).
Proof.
  intros Hf. rewrite step_eq. destruct (opens o w) as [e |].
  - apply handleOpen_warned, Hf.
  - rewrite handleClose_eq, Hf. reflexivity.
Qed.

(** X4.  Once the flag is set it stays set, and from then on no call
    throws, not even with [null] or [undefined], and nothing more is written
    to the console. *)
Theorem warned_never_throws (popupId : value) (variant : string) (ops : list op) :
  forall w, eventOrAnchorElWarned w = true ->
  Forall (fun c => c = Normal tt) (outcomes popupId variant ops w) /\
  eventOrAnchorElWarned (run popupId variant ops w) = true /\
  console_error_log (run popupId variant ops w) = console_error_log w.
Proof.
  induction ops as [| o ops IH]; intros w Hf.
  - simpl. repeat split; [constructor | exact Hf].
  - rewrite run_cons. cbn [outcomes].
    rewrite (step_keeps_flag popupId variant o w Hf). cbn [fst snd].
    destruct (IH (mkWorld true (console_error_log w)
                    (State.mk match opens o w with
                              | Some e => resolved_anchor e
                              | None => VNull
                              end)) eq_refl) as (Ho & Hw & Hl).
    repeat split; [constructor; [reflexivity | exact Ho] | exact Hw | exact Hl].
Qed.

Lemma warned_never_throws_witness :
  eventOrAnchorElWarned warned_closed = true /\
  Forall (fun c => c = Normal tt)
    (outcomes VUndefined "popover" [Open VUndefined; Toggle VNull; Close] warned_closed).
Proof.
  split; [reflexivity |].
  exact (proj1 (warned_never_throws VUndefined "popover"
                  [Open VUndefined; Toggle VNull; Close] warned_closed eq_refl)).
Defined.

(** ** How the handlers compose *)

(** X5.  Two toggles made in separate events, the second on the props of
    the render that follows the first, undo each other.  From a closed
    state, [toggle(a)] with a truthy [a] and then any [toggle(b)] complete
    and end closed with the anchor [null], flag and console untouched; from
    an open state, any [toggle(b)] and then [toggle(a)] with a truthy [a]
    end open on the anchor resolved from [a]. *)
Theorem toggle_toggle_across_renders
  (popupId : value) (variant : string) (a b : value) (w : World) :
  ToBoolean a = true ->
  (ToBoolean (State.anchorEl (this_state w)) = false ->
   outcomes popupId variant [Toggle a; Toggle b] w = [Normal tt; Normal tt] /\
   run popupId variant [Toggle a; Toggle b] w
   = mkWorld (eventOrAnchorElWarned w) (console_error_log w) (State.mk VNull)) /\
  (ToBoolean (State.anchorEl (this_state w)) = true ->
   outcomes popupId variant [Toggle b; Toggle a] w = [Normal tt; Normal tt] /\
   run popupId variant [Toggle b; Toggle a] w
   = mkWorld (eventOrAnchorElWarned w) (console_error_log w)
       (State.mk (resolved_anchor a))).
Proof.
  intros Ha. split; intros Hs.
  - cbn [outcomes run]. unfold step. cbn [invoke injected render Props.children
      InjectedProps.toggle].
    rewrite (handleToggle_eq a w), Hs, (handleOpen_truthy a w Ha). cbn [fst snd].
    rewrite handleToggle_eq. cbn [this_state State.anchorEl].
    rewrite (resolved_anchor_truthy a Ha). split; reflexivity.
  - cbn [outcomes run]. unfold step. cbn [invoke injected render Props.children
      InjectedProps.toggle].
    rewrite (handleToggle_eq b w), Hs, handleClose_eq. cbn [fst snd].
    rewrite handleToggle_eq. cbn [this_state State.anchorEl ToBoolean].
    rewrite (handleOpen_truthy a _ Ha). split; reflexivity.
Qed.

Lemma toggle_toggle_across_renders_witness :
  ToBoolean click_event = true /\
  ToBoolean (State.anchorEl (this_state initial)) = false /\
  run (VStr "menu") "popover" [Toggle click_event; Toggle VUndefined] initial = initial.
Proof.
  split; [reflexivity | split; [reflexivity |]].
  exact (proj2 (proj1 (toggle_toggle_across_renders (VStr "menu") "popover"
                         click_event VUndefined initial eq_refl) eq_refl)).
Defined.

(** X6.  [toggle(a)] is [setOpen(!isOpen, a)], [isOpen] being the one of
    the current render: the same result, exception and world, for every
    argument. *)
Theorem toggle_is_setOpen_not_isOpen
  (popupId : value) (variant : string) (a : value) (w : World) :
  handleToggle a w
  = handleSetOpen
      (VBool (negb (InjectedProps.isOpen (injected popupId variant w)))) a w.
Proof.
  rewrite handleToggle_eq, handleSetOpen_eq. simpl.
  destruct (ToBoolean (State.anchorEl (this_state w))); reflexivity.
Qed.

(** X7.  Repeating a call to [open] or [setOpen] with the same arguments
    changes nothing: the second call has the result of the first (also when
    that is the exception) and leaves the world the first one has left,
    without a second diagnostic. *)
Theorem open_same_argument_twice (flag a : value) (w : World) :
  (fst (handleOpen a (snd (handleOpen a w))) = fst (handleOpen a w) /\
   snd (handleOpen a (snd (handleOpen a w))) = snd (handleOpen a w)) /\
  (fst (handleSetOpen flag a (snd (handleSetOpen flag a w)))
   = fst (handleSetOpen flag a w) /\
   snd (handleSetOpen flag a (snd (handleSetOpen flag a w)))
   = snd (handleSetOpen flag a w)).
Proof.
  assert (Ho : forall w0,
             fst (handleOpen a (snd (handleOpen a w0))) = fst (handleOpen a w0) /\
             snd (handleOpen a (snd (handleOpen a w0))) = snd (handleOpen a w0)).
  { intros w0. rewrite (handleOpen_eq a w0).
    destruct (eventOrAnchorElWarned w0) eqn:Hf; cbn [negb andb orb fst snd].
    - rewrite handleOpen_eq. split; reflexivity.
    - destruct (nullish a) eqn:Hn; cbn [fst snd].
      + rewrite handleOpen_eq, Hf, Hn. split; reflexivity.
      + rewrite handleOpen_eq. cbn [eventOrAnchorElWarned console_error_log].
        destruct (ToBoolean a) eqn:Ht; cbn [negb andb orb fst snd].
        * rewrite Hn. split; reflexivity.
        * split; reflexivity. }
  split; [apply Ho |].
  rewrite !handleSetOpen_eq. destruct (ToBoolean flag); [apply Ho |].
  split; reflexivity.
Qed.

(** ** Invariants of a sequence of calls *)

(** A call with a truthy anchor argument completes and writes the state
    only. *)
Lemma step_supplied (popupId : value) (variant : string) (o : op) (w : World) :
  supplied o = true ->
  step popupId variant o w
  = (Normal tt,
     mkWorld (eventOrAnchorElWarned w) (console_error_log w)
       (State.mk match opens o w with
                 | Some e => resolved_anchor e
                 | None => VNull
                 end)) /\
  match opens o w with
  | Some e => ToBoolean e = true
  | None => True
  end.
Proof.
  intros Hs. rewrite step_eq.
  assert (He : match opens o w with Some e => ToBoolean e = true | None => True end).
  { destruct o as [e | | e | b e]; simpl in *.
    - exact Hs.
    - exact I.
    - destruct (ToBoolean (State.anchorEl (this_state w))); [exact I | exact Hs].
    - destruct (ToBoolean b); [| exact I].
      rewrite orb_false_r in Hs. exact Hs. }
  split; [| exact He].
  destruct (opens o w) as [e |].
  - apply handleOpen_truthy, He.
  - apply handleClose_eq.
Qed.

(** X8.  A consumer that always passes a truthy anchor argument never sees
    the guard: every call of any sequence completes, the flag and the
    console stay as they were, and the anchor, if it was [null] or truthy,
    is [null] or truthy at the end, so that closed means [anchorEl] is
    [null]. *)
Theorem supplied_calls_are_quiet (popupId : value) (variant : string) (ops : list op) :
  forall w, forallb supplied ops = true ->
  Forall (fun c => c = Normal tt) (outcomes popupId variant ops w) /\
  eventOrAnchorElWarned (run popupId variant ops w) = eventOrAnchorElWarned w /\
  console_error_log (run popupId variant ops w) = console_error_log w /\
  (State.anchorEl (this_state w) = VNull
   \/ ToBoolean (State.anchorEl (this_state w)) = true ->
   State.anchorEl (this_state (run popupId variant ops w)) = VNull
   \/ ToBoolean (State.anchorEl (this_state (run popupId variant ops w))) = true).
Proof.
  induction ops as [| o ops IH]; intros w Hs.
  - simpl. repeat split; [constructor | tauto].
  - cbn [forallb] in Hs. apply andb_prop in Hs. destruct Hs as [Ho Hs].
    rewrite run_cons. cbn [outcomes].
    destruct (step_supplied popupId variant o w Ho) as [Heq He].
    rewrite Heq. cbn [fst snd].
    destruct (IH (mkWorld (eventOrAnchorElWarned w) (console_error_log w)
                    (State.mk match opens o w with
                              | Some e => resolved_anchor e
                              | None => VNull
                              end)) Hs) as (H1 & H2 & H3 & H4).
    repeat split.
    + constructor; [reflexivity | exact H1].
    + exact H2.
    + exact H3.
    + intros _. apply H4. cbn [this_state State.anchorEl].
      destruct (opens o w) as [e |].
      * right. apply resolved_anchor_truthy, He.
      * left. reflexivity.
Qed.

Lemma supplied_calls_are_quiet_witness :
  Forall (fun c => c = Normal tt)
    (outcomes (VStr "menu") "popover"
       [Toggle click_event; SetOpen (VBool false) VUndefined; Open button_element]
       initial).
Proof.
  exact (proj1 (supplied_calls_are_quiet (VStr "menu") "popover"
                  [Toggle click_event; SetOpen (VBool false) VUndefined;
                   Open button_element]
                  initial eq_refl)).
Defined.

(** The anchor after one call: the one before, [null], or the one resolved
    from the argument of the call. *)
Lemma step_anchor (popupId : value) (variant : string) (o : op) (w : World) :
  In (State.anchorEl (this_state (snd (step popupId variant o w))))
     (State.anchorEl (this_state w)
      :: VNull :: map resolved_anchor (arguments [o])).
Proof.
  rewrite step_eq.
  assert (Ha : match opens o w with
               | Some e => arguments [o] = [e]
               | None => True
               end).
  { destruct o as [e | | e | b e]; simpl.
    - reflexivity.
    - exact I.
    - destruct (ToBoolean (State.anchorEl (this_state w))); [exact I | reflexivity].
    - destruct (ToBoolean b); [reflexivity | exact I]. }
  destruct (opens o w) as [e |].
  - rewrite Ha, handleOpen_eq.
    destruct (negb (eventOrAnchorElWarned w) && nullish e); simpl; auto.
  - simpl. auto.
Qed.

Lemma arguments_cons (o : op) (ops : list op) :
  arguments (o :: ops) = (arguments [o] ++ arguments ops)%list.
Proof. destruct o; reflexivity. Qed.

(** X9.  The controller never makes up an anchor: after any sequence of
    calls from the initial state, [state.anchorEl] is [null] or is the
    anchor resolved from the argument of one of the calls, that is that
    argument or its [target]. *)
Theorem anchor_comes_from_a_call (popupId : value) (variant : string) (ops : list op) :
  In (State.anchorEl (this_state (run popupId variant ops initial)))
     (VNull :: map resolved_anchor (arguments ops)) /\
  Forall (fun e => resolved_anchor e = e \/ resolved_anchor e = target_of e)
    (arguments ops).
Proof.
  split.
  - assert (G : forall w,
               In (State.anchorEl (this_state (run popupId variant ops w)))
                  (State.anchorEl (this_state w)
                   :: VNull :: map resolved_anchor (arguments ops))).
    { induction ops as [| o ops IH]; intros w.
      - left. reflexivity.
      - rewrite run_cons, arguments_cons, map_app.
        specialize (IH (snd (step popupId variant o w))).
        pose proof (step_anchor popupId variant o w) as Hs.
        destruct IH as [IH | [IH | IH]].
        + rewrite <- IH.
          destruct Hs as [Hs | [Hs | Hs]].
          * left. exact Hs.
          * right. left. exact Hs.
          * right. right. apply in_or_app. left. exact Hs.
        + right. left. exact IH.
        + right. right. apply in_or_app. right. exact IH. }
    specialize (G initial). simpl in G. destruct G as [G | G].
    + left. exact G.
    + exact G.
  - apply Forall_forall. intros e _.
    unfold resolved_anchor. destruct (ToBoolean (target_of e)); auto.
Qed.

(** * Further properties of the binding functions *)

(** X10.  What the popup surface is given.  At every render [bindPopover]
    and [bindPopper] pass [open] as the truthiness of the [anchorEl] they
    pass, so [open: true] never comes with a falsy anchor.  For a consumer
    that always passes a truthy anchor argument, after any sequence of calls
    from the initial state, either the surface is closed on the anchor
    [null] or it is open on a truthy anchor. *)
Theorem surface_open_follows_anchor (popupId : value) (variant : string) (ops : list op) :
  (forall w, exists a,
      lookup "anchorEl" (bindPopover (injected popupId variant w)) = Some (AVal a) /\
      lookup "open" (bindPopover (injected popupId variant w))
      = Some (AVal (VBool (ToBoolean a))) /\
      lookup "anchorEl" (bindPopper (injected popupId variant w)) = Some (AVal a) /\
      lookup "open" (bindPopper (injected popupId variant w))
      = Some (AVal (VBool (ToBoolean a)))) /\
  (forallb supplied ops = true ->
   exists a,
     lookup "anchorEl"
       (bindPopover (injected popupId variant (run popupId variant ops initial)))
     = Some (AVal a) /\
     ((a = VNull /\
       lookup "open"
         (bindPopover (injected popupId variant (run popupId variant ops initial)))
       = Some (AVal (VBool false)))
      \/
      (ToBoolean a = true /\
       lookup "open"
         (bindPopover (injected popupId variant (run popupId variant ops initial)))
       = Some (AVal (VBool true))))).
Proof.
  split.
  - intros w. exists (State.anchorEl (this_state w)). repeat split.
  - intros Hs.
    exists (State.anchorEl (this_state (run popupId variant ops initial))).
    split; [reflexivity |].
    destruct (supplied_calls_are_quiet popupId variant ops initial Hs)
      as (_ & _ & _ & H).
    destruct (H (or_introl eq_refl)) as [Hn | Ht].
    + left. split; [exact Hn |]. simpl. rewrite Hn. reflexivity.
    + right. split; [exact Ht |]. simpl. rewrite Ht. reflexivity.
Qed.

Lemma surface_open_follows_anchor_witness :
  exists a,
    lookup "anchorEl"
      (bindPopover (injected (VStr "menu") "popover"
                      (run (VStr "menu") "popover" [Open click_event] initial)))
    = Some (AVal a) /\
    ((a = VNull /\
      lookup "open"
        (bindPopover (injected (VStr "menu") "popover"
                        (run (VStr "menu") "popover" [Open click_event] initial)))
      = Some (AVal (VBool false)))
     \/
     (ToBoolean a = true /\
      lookup "open"
        (bindPopover (injected (VStr "menu") "popover"
                        (run (VStr "menu") "popover" [Open click_event] initial)))
      = Some (AVal (VBool true)))).
Proof.
  exact (proj2 (surface_open_follows_anchor (VStr "menu") "popover" [Open click_event])
           eq_refl).
Defined.

(** Distinct member names, for a literal whose names are known. *)
Ltac distinct_keys :=
  repeat constructor; simpl; intuition discriminate.

(** X11.  The five binding functions give well-formed objects: no member
    name occurs twice, whatever the variant, so the computed ARIA name never
    collides with [aria-haspopup] or a handler.  [bindPopper] gives the
    members of [bindPopover] without [onClose], and no handler at all. *)
Theorem bindings_have_distinct_keys (p : InjectedProps.t) :
  NoDup (keys (bindTrigger p)) /\
  NoDup (keys (bindToggle p)) /\
  NoDup (keys (bindHover p)) /\
  NoDup (keys (bindPopover p)) /\
  NoDup (keys (bindPopper p)) /\
  bindPopover p = (bindPopper p ++ [("onClose", AFun0 (InjectedProps.close p))])%list /\
  has_key "onClose" (bindPopper p) = false /\
  Forall (fun m => exists v, snd m = AVal v) (bindPopper p).
Proof.
  unfold keys, bindTrigger, bindToggle, bindHover.
  destruct (variant_cases (InjectedProps.variant p)) as [(Hv & _) | (Hv & _)];
    rewrite Hv; cbn [map fst];
    (repeat split; try distinct_keys);
    repeat constructor; eexists; reflexivity.
Qed.

(** X12.  Only the exact string [popover] selects [aria-owns]: with any
    other variant, [popper] or not, the three trigger bindings carry
    [aria-describedby] and no [aria-owns]. *)
Theorem other_variants_use_describedby (p : InjectedProps.t) :
  InjectedProps.variant p <> "popover" ->
  Forall (fun o : object =>
            has_key "aria-describedby" o = true /\
            has_key "aria-owns" o = false /\
            lookup "aria-describedby" o
            = Some (AVal (if InjectedProps.isOpen p
                          then InjectedProps.popupId p else VNull)))
    [bindTrigger p; bindToggle p; bindHover p].
Proof.
  intros Hn.
  destruct (variant_cases (InjectedProps.variant p)) as [(_ & Hv & _) | (Hv & _)];
    [contradiction |].
  unfold bindTrigger, bindToggle, bindHover, has_key. rewrite Hv.
  repeat constructor.
Qed.

Lemma other_variants_use_describedby_witness :
  Forall (fun o : object =>
            has_key "aria-describedby" o = true /\
            has_key "aria-owns" o = false /\
            lookup "aria-describedby" o = Some (AVal VNull))
    [bindTrigger (injected (VStr "menu") "Popover" initial);
     bindToggle (injected (VStr "menu") "Popover" initial);
     bindHover (injected (VStr "menu") "Popover" initial)].
Proof.
  apply (other_variants_use_describedby (injected (VStr "menu") "Popover" initial)).
  discriminate.
Defined.

(** * Two components on one page *)

Lemma view_store_same (i : instance) (w : World) (pg : Page) :
  view i (store i w pg) = w.
Proof. destruct i, w; reflexivity. Qed.

Lemma view_store_other (i j : instance) (w : World) (pg : Page) :
  same_instance i j = false ->
  view j (store i w pg)
  = mkWorld (eventOrAnchorElWarned w) (console_error_log w) (state_of j pg).
Proof. destruct i, j; intros H; try discriminate H; reflexivity. Qed.

Lemma on_instance_warn_once (i : instance) (o : op) (pg : Page) :
  page_console pg = (if page_warned pg then [warning] else []) ->
  page_console (snd (on_instance i o pg))
  = (if page_warned (snd (on_instance i o pg)) then [warning] else []).
Proof.
  intros H.
  pose proof (invoke_warn_once VUndefined "popover" o (view i pg) H) as Hw.
  unfold warn_once in Hw. unfold on_instance. cbn [snd].
  destruct i; exact Hw.
Qed.

(** X13.  The diagnostic is per module, not per component: over any
    interleaving of calls on two components mounted on a fresh page,
    [console.error] is called at most once in all. *)
Theorem page_diagnostic_at_most_once (calls : list (instance * op)) :
  page_console (run_page calls fresh_page)
  = (if page_warned (run_page calls fresh_page)
     then ["eventOrAnchorEl should be defined"] else []) /\
  length (page_console (run_page calls fresh_page)) <= 1.
Proof.
  assert (G : forall pg,
             page_console pg = (if page_warned pg then [warning] else []) ->
             page_console (run_page calls pg)
             = (if page_warned (run_page calls pg) then [warning] else [])).
  { induction calls as [| [i o] calls IH]; intros pg H.
    - exact H.
    - cbn [run_page]. apply IH, on_instance_warn_once, H. }
  specialize (G fresh_page eq_refl). split; [exact G |].
  rewrite G. destruct (page_warned _); simpl; lia.
Qed.

(** X14.  What [open(undefined)] does on one component depends on the
    other one.  On a page whose flag is unset the call throws and leaves the
    component as it is; after a call on either component with a falsy
    argument that is neither [null] nor [undefined], which writes the
    diagnostic, the same call completes and stores the argument, closing the
    component. *)
Theorem other_instance_decides_throw (i j : instance) (a b : value) (pg : Page) :
  page_warned pg = false ->
  ToBoolean a = false -> nullish a = false -> nullish b = true ->
  (fst (on_instance j (Open b) pg) = Throw cannot_read_target /\
   snd (on_instance j (Open b) pg) = pg) /\
  page_console (snd (on_instance i (Open a) pg)) = warning :: page_console pg /\
  fst (on_instance j (Open b) (snd (on_instance i (Open a) pg))) = Normal tt /\
  state_of j (snd (on_instance j (Open b) (snd (on_instance i (Open a) pg))))
  = State.mk b.
Proof.
  intros Hf Ha Hn Hb.
  assert (Hrb : resolved_anchor b = b)
    by (destruct b; try discriminate Hb; reflexivity).
  unfold on_instance, step. cbn [invoke injected render Props.children InjectedProps.open].
  rewrite (handleOpen_nullish_unwarned b (view j pg) Hb Hf).
  rewrite (handleOpen_falsy_primitive a (view i pg) Ha Hn Hf).
  cbn [fst snd].
  repeat split.
  - destruct j, pg; reflexivity.
  - destruct i; reflexivity.
  - rewrite handleOpen_warned; [reflexivity | destruct i, j; reflexivity].
  - rewrite handleOpen_warned; [| destruct i, j; reflexivity].
    cbn [snd]. rewrite Hrb. destruct j; reflexivity.
Qed.

Lemma other_instance_decides_throw_witness :
  fst (on_instance Second (Open VUndefined) fresh_page) = Throw cannot_read_target /\
  fst (on_instance Second (Open VUndefined)
         (snd (on_instance First (Open (VStr "")) fresh_page))) = Normal tt.
Proof.
  pose proof (other_instance_decides_throw First Second (VStr "") VUndefined fresh_page
                eq_refl eq_refl eq_refl eq_refl) as [[H1 _] [_ [H2 _]]].
  exact (conj H1 H2).
Defined.

Lemma on_instance_supplied (i : instance) (o : op) (pg : Page) :
  supplied o = true ->
  snd (on_instance i o pg)
  = store i (snd (step VUndefined "popover" o (view i pg))) pg /\
  eventOrAnchorElWarned (snd (step VUndefined "popover" o (view i pg))) = page_warned pg /\
  console_error_log (snd (step VUndefined "popover" o (view i pg))) = page_console pg.
Proof.
  intros Hs. split; [reflexivity |].
  destruct (step_supplied VUndefined "popover" o (view i pg) Hs) as [Heq _].
  rewrite Heq. split; reflexivity.
Qed.

(** X15.  With truthy anchor arguments the two components do not see each
    other: after any interleaving of such calls, the state of a component is
    the one its own calls alone, in their order, produce. *)
Theorem supplied_instances_are_independent
  (j : instance) (calls : list (instance * op)) :
  forall pg,
  forallb (fun c => supplied (snd c)) calls = true ->
  state_of j (run_page calls pg)
  = this_state (run VUndefined "popover" (calls_of j calls) (view j pg)).
Proof.
  induction calls as [| [i o] calls IH]; intros pg Hs.
  - reflexivity.
  - cbn [forallb snd] in Hs. apply andb_prop in Hs. destruct Hs as [Ho Hs].
    cbn [run_page]. rewrite (IH _ Hs).
    destruct (on_instance_supplied i o pg Ho) as (Hst & Hf & Hl).
    rewrite Hst. unfold calls_of. cbn [filter fst].
    destruct (same_instance i j) eqn:Hij.
    + assert (i = j) as -> by (destruct i, j; try discriminate Hij; reflexivity).
      cbn [map snd]. rewrite run_cons, view_store_same. reflexivity.
    + rewrite (view_store_other i j _ pg Hij), Hf, Hl. reflexivity.
Qed.

Lemma supplied_instances_are_independent_witness :
  state_of Second
    (run_page [(First, Open click_event); (Second, Toggle button_element);
               (First, Close)] fresh_page)
  = State.mk button_element.
Proof.
  exact (supplied_instances_are_independent Second
           [(First, Open click_event); (Second, Toggle button_element); (First, Close)]
           fresh_page eq_refl).
Defined.
